(** * Verification of the project-skeleton generator [ss.py]

    The program walks a nested mapping (the [structure] literal) and creates
    the corresponding directories and empty files below a base directory.
    This development embeds the routine [create_structure] and the entry
    point [create_directory_structure] over an explicit model of the
    filesystem calls they make ([os.path.exists], [os.makedirs],
    [os.path.join] and [open(path, 'w')]), and proves the properties the
    specification states about them. *)

From Stdlib Require Import Ascii.
From stdpp Require Import gmap strings list fin_maps.

Open Scope string_scope.

(** ** The tree that is materialised

    In the source the tree is a Python [dict] whose values are either [None]
    (a file) or another [dict] (a sub-directory).  A [dict] iterates in
    insertion order, so it is modelled as the ordered sequence of its items. *)

Inductive content : Type :=
  | PyNone : content
  | PyDict : dict -> content
with dict : Type :=
  | Empty : dict
  | Item : string -> content -> dict -> dict.

(** A dict display [{k1: v1, ..., kn: vn}]. *)
Definition mapping (items : list (string * content)) : dict :=
  foldr (fun kv d => Item kv.1 kv.2 d) Empty items.

(** Number of nested [create_structure] activations the walk of a dict needs:
    one for the dict itself plus the deepest chain of sub-dicts. *)
Fixpoint depth (d : dict) : nat :=
  match d with
  | Empty => 1
  | Item _ c rest =>
      Nat.max (match c with PyNone => 1 | PyDict sub => S (depth sub) end)
              (depth rest)
  end.

(** ** Paths and filesystem states

    A path is the list of its components relative to the directory the
    program is started in, innermost component first: ["b.txt"; "sub"; "out"]
    is [out/sub/b.txt] and [[]] is the start directory itself.  Names are
    single path components, so [os.path.join base name] is the entry [name]
    inside [base]. *)

Abbreviation path := (list string).

Definition join (base_path : path) (name : string) : path := name :: base_path.

(** An entry is a directory or a regular file with its bytes.  [writable]
    is the permission of the running user on the entry: for a directory, to
    add entries to it; for a file, to open it for writing.  The program
    never changes a permission.  Links are not modelled, and every directory
    may be searched. *)
Inductive entry : Type :=
  | Directory (writable : bool)
  | RegularFile (writable : bool) (data : list Byte.byte).

Abbreviation fs := (gmap path entry).

Definition is_dir (s : fs) (p : path) : Prop :=
  exists w, s !! p = Some (Directory w).


(** Every entry but the start directory lies in a directory. *)
Definition wf (s : fs) : Prop :=
  forall name parent e, s !! (name :: parent) = Some e -> is_dir s parent.

(** ** Path strings

    The program handles paths as strings and joins them with
    [os.path.join].  The definitions below are that function (for POSIX, two
    arguments) and the reading of a path string as a list of components;
    [posixpath_join_components] shows that on names that are plain path
    components the join of strings is [join] on component lists. *)

Definition starts_with_sep (b : string) : bool :=
  match b with
  | String c _ => bool_decide (c = "/"%char)
  | EmptyString => false
  end.

Fixpoint ends_with_sep (a : string) : bool :=
  match a with
  | EmptyString => false
  | String c EmptyString => bool_decide (c = "/"%char)
  | String _ a' => ends_with_sep a'
  end.

(** [posixpath.join(a, b)] *)
Definition posixpath_join (a b : string) : string :=
  if starts_with_sep b || bool_decide (a = "") then b
  else if ends_with_sep a then a +:+ b
  else a +:+ "/" +:+ b.

(** The pieces of a path string between its separators, in order. *)
Fixpoint segments (p : string) : list string :=
  match p with
  | EmptyString => [""]
  | String c p' =>
      if bool_decide (c = "/"%char) then "" :: segments p'
      else match segments p' with
           | h :: t => String c h :: t
           | [] => [String c ""]
           end
  end.

(** Empty pieces and [.] do not name anything. *)
Definition names_entry (x : string) : bool :=
  negb (bool_decide (x = "")) && negb (bool_decide (x = ".")).

(** The components of a path string, innermost first. *)
Definition components (p : string) : path :=
  rev (filter (fun x => names_entry x = true) (segments p)).

Fixpoint has_sep (b : string) : bool :=
  match b with
  | EmptyString => false
  | String c b' => bool_decide (c = "/"%char) || has_sep b'
  end.

(** A name that is one path component and names an entry of its directory. *)
Definition plain_name (b : string) : bool :=
  names_entry b && negb (bool_decide (b = "..")) && negb (has_sep b).



(** All the names a tree uses. *)
Fixpoint names (d : dict) : list string :=
  match d with
  | Empty => []
  | Item name c rest =>
      name :: match c with PyNone => [] | PyDict sub => names sub end ++ names rest
  end.

(** ** Filesystem calls: state and exceptions

    A call takes the filesystem state and returns either the exception it
    raises or its value, together with the state it leaves behind. *)

Inductive OSError : Type :=
  | FileExistsError
  | FileNotFoundError
  | NotADirectoryError
  | IsADirectoryError
  | PermissionError.

Definition io (A : Type) : Type := fs -> (OSError + A) * fs.

Definition ret {A} (x : A) : io A := fun s => (inr x, s).

Definition raise {A} (e : OSError) : io A := fun s => (inl e, s).

Definition bind {A B} (m : io A) (k : A -> io B) : io B :=
  fun s =>
    match m s with
    | (inl e, s') => (inl e, s')
    | (inr x, s') => k x s'
    end.

(** [try: m except OSError as e: h e] *)
Definition try_except {A} (m : io A) (h : OSError -> io A) : io A :=
  fun s =>
    match m s with
    | (inl e, s') => h e s'
    | (inr x, s') => (inr x, s')
    end.

Declare Scope io_scope.
Delimit Scope io_scope with io.
Bind Scope io_scope with io.
Notation "x <- m ;; k" := (bind m (fun x => k))
  (at level 100, m at next level, right associativity) : io_scope.
Notation "m ;; k" := (bind m (fun _ => k))
  (at level 100, right associativity) : io_scope.
Open Scope io_scope.

(** [os.path.exists] and [os.path.isdir]. *)
Definition os_path_exists (p : path) : io bool :=
  fun s => (inr (bool_decide (is_Some (s !! p))), s).

Definition os_path_isdir (p : path) : io bool :=
  fun s => (inr (match s !! p with Some (Directory _) => true | _ => false end), s).

(** What creating a new entry [e] at the absent path [p] does: the parent
    must be a directory the user may write to.  (The entries the program
    makes are its user's own: [e] is writable.) *)
Definition create_entry (p : path) (e : entry) : io unit :=
  fun s =>
    match p with
    | [] => (inl FileNotFoundError, s)
    | _ :: parent =>
        match s !! parent with
        | None => (inl FileNotFoundError, s)
        | Some (RegularFile _ _) => (inl NotADirectoryError, s)
        | Some (Directory false) => (inl PermissionError, s)
        | Some (Directory true) => (inr tt, <[p := e]> s)
        end
    end.

(** [os.mkdir]: fails on an existing path. *)
Definition os_mkdir (p : path) : io unit :=
  fun s =>
    match s !! p with
    | Some _ => (inl FileExistsError, s)
    | None => create_entry p (Directory true) s
    end.

(** [os.makedirs(name, exist_ok=...)], after CPython's [os.py]: create the
    missing ancestors first, then the leaf; with [exist_ok] an error of the
    final [mkdir] is swallowed when the leaf is a directory. *)
Fixpoint os_makedirs (name : path) (exist_ok : bool) : io unit :=
  (match name with
   | _ :: ((_ :: _) as head) =>
       present <- os_path_exists head ;;
       if present then ret tt
       else try_except (os_makedirs head exist_ok)
              (fun e => match e with FileExistsError => ret tt | _ => raise e end)
   | _ => ret tt
   end) ;;
  try_except (os_mkdir name)
    (fun e =>
       isdir <- os_path_isdir name ;;
       if negb exist_ok || negb isdir then raise e else ret tt).

(** The last statement of [os.makedirs] on its own: the [mkdir] of the leaf
    and its handler. *)
Definition mkdir_leaf (name : path) (exist_ok : bool) : io unit :=
  try_except (os_mkdir name)
    (fun e =>
       isdir <- os_path_isdir name ;;
       if negb exist_ok || negb isdir then raise e else ret tt).

(** [with open(path, 'w') as f: pass]: create the file, or truncate it when
    it exists; nothing is written before it is closed. *)
Definition open_w (p : path) : io unit :=
  fun s =>
    match s !! p with
    | Some (Directory _) => (inl IsADirectoryError, s)
    | Some (RegularFile false _) => (inl PermissionError, s)
    | Some (RegularFile true _) => (inr tt, <[p := RegularFile true []]> s)
    | None => create_entry p (RegularFile true []) s
    end.

(** ** The program *)

(** The first statement of [create_structure]:
    [if not os.path.exists(base_path): os.makedirs(base_path)]. *)
Definition ensure_base (base_path : path) : io unit :=
  present <- os_path_exists base_path ;;
  if negb present then os_makedirs base_path false else ret tt.

Fixpoint create_structure (base_path : path) (structure : dict) {struct structure} : io unit :=
  ensure_base base_path ;;
  (fix items (d : dict) : io unit :=
     match d with
     | Empty => ret tt
     | Item name content rest =>
         let path := join base_path name in
         match content with
         | PyNone => open_w path
         | PyDict sub =>
             os_makedirs path true ;;
             create_structure path sub
         end ;;
         items rest
     end) structure.

(** The [for] loop of [create_structure] on its own. *)
Fixpoint for_items (base_path : path) (d : dict) : io unit :=
  match d with
  | Empty => ret tt
  | Item name content rest =>
      let path := join base_path name in
      match content with
      | PyNone => open_w path
      | PyDict sub =>
          os_makedirs path true ;;
          create_structure path sub
      end ;;
      for_items base_path rest
  end.

(** [create_structure] with Python's call stack made explicit: [frames] is the
    number of activations of [create_structure] that may be live at once, and
    [None] is the interpreter giving up because one more would be needed. *)
Fixpoint create_structure_in (frames : nat) (base_path : path) (structure : dict)
    (s : fs) : option ((OSError + unit) * fs) :=
  match frames with
  | 0 => None
  | S frames' =>
      match ensure_base base_path s with
      | (inl e, s1) => Some (inl e, s1)
      | (inr _, s1) =>
          (fix items (d : dict) (s : fs) : option ((OSError + unit) * fs) :=
             match d with
             | Empty => Some (inr tt, s)
             | Item name content rest =>
                 let path := join base_path name in
                 match
                   match content with
                   | PyNone => Some (open_w path s)
                   | PyDict sub =>
                       match os_makedirs path true s with
                       | (inl e, s') => Some (inl e, s')
                       | (inr _, s') => create_structure_in frames' path sub s'
                       end
                   end
                 with
                 | None => None
                 | Some (inl e, s') => Some (inl e, s')
                 | Some (inr _, s') => items rest s'
                 end
             end) structure s1
      end
  end.

(** The loop of [create_structure_in], with [frames] left for the calls it
    makes. *)
Fixpoint for_items_in (frames : nat) (base_path : path) (d : dict) (s : fs)
    : option ((OSError + unit) * fs) :=
  match d with
  | Empty => Some (inr tt, s)
  | Item name content rest =>
      let path := join base_path name in
      match
        match content with
        | PyNone => Some (open_w path s)
        | PyDict sub =>
            match os_makedirs path true s with
            | (inl e, s') => Some (inl e, s')
            | (inr _, s') => create_structure_in frames path sub s'
            end
        end
      with
      | None => None
      | Some (inl e, s') => Some (inl e, s')
      | Some (inr _, s') => for_items_in frames base_path rest s'
      end
  end.

(** The entry point: the base directory, the tree literal, the walk and the
    closing message.  The world is the filesystem and the lines printed. *)
Record world : Type := World { files : fs; stdout : list string }.

Definition base_dir : string := "lib".
Definition structure : dict := mapping [
  ("main.dart", PyNone);
  ("app.dart", PyNone);
  ("firebase_options.dart", PyNone);
  ("core", PyDict (mapping [
    ("constants", PyDict (mapping [
      ("api_constants.dart", PyNone);
      ("app_constants.dart", PyNone);
      ("color_constants.dart", PyNone);
      ("string_constants.dart", PyNone)
    ]));
    ("config", PyDict (mapping [
      ("app_config.dart", PyNone);
      ("dio_config.dart", PyNone);
      ("websocket_config.dart", PyNone)
    ]));
    ("utils", PyDict (mapping [
      ("date_utils.dart", PyNone);
      ("file_utils.dart", PyNone);
      ("phone_utils.dart", PyNone);
      ("permission_utils.dart", PyNone);
      ("validation_utils.dart", PyNone)
    ]));
    ("extensions", PyDict (mapping [
      ("context_extensions.dart", PyNone);
      ("string_extensions.dart", PyNone);
      ("datetime_extensions.dart", PyNone);
      ("widget_extensions.dart", PyNone)
    ]));
    ("exceptions", PyDict (mapping [
      ("app_exception.dart", PyNone);
      ("network_exception.dart", PyNone);
      ("auth_exception.dart", PyNone)
    ]))
  ]));
  ("models", PyDict (mapping [
    ("auth", PyDict (mapping [
      ("user_model.dart", PyNone);
      ("login_request.dart", PyNone);
      ("register_request.dart", PyNone);
      ("otp_request.dart", PyNone);
      ("auth_response.dart", PyNone)
    ]));
    ("chat", PyDict (mapping [
      ("chat_model.dart", PyNone);
      ("message_model.dart", PyNone);
      ("participant_model.dart", PyNone);
      ("chat_settings.dart", PyNone)
    ]));
    ("group", PyDict (mapping [
      ("group_model.dart", PyNone);
      ("group_member.dart", PyNone);
      ("group_settings.dart", PyNone);
      ("group_invite.dart", PyNone)
    ]));
    ("call", PyDict (mapping [
      ("call_model.dart", PyNone);
      ("call_participant.dart", PyNone);
      ("call_settings.dart", PyNone);
      ("webrtc_models.dart", PyNone)
    ]));
    ("file", PyDict (mapping [
      ("file_model.dart", PyNone);
      ("media_model.dart", PyNone);
      ("upload_response.dart", PyNone)
    ]));
    ("common", PyDict (mapping [
      ("api_response.dart", PyNone);
      ("pagination_model.dart", PyNone);
      ("error_model.dart", PyNone)
    ]))
  ]));
  ("services", PyDict (mapping [
    ("api", PyDict (mapping [
      ("api_service.dart", PyNone);
      ("auth_api.dart", PyNone);
      ("chat_api.dart", PyNone);
      ("group_api.dart", PyNone);
      ("call_api.dart", PyNone);
      ("file_api.dart", PyNone);
      ("message_api.dart", PyNone)
    ]));
    ("websocket", PyDict (mapping [
      ("websocket_service.dart", PyNone);
      ("chat_socket.dart", PyNone);
      ("call_socket.dart", PyNone)
    ]));
    ("storage", PyDict (mapping [
      ("secure_storage.dart", PyNone);
      ("local_storage.dart", PyNone);
      ("cache_service.dart", PyNone)
    ]));
    ("notification", PyDict (mapping [
      ("fcm_service.dart", PyNone);
      ("local_notification.dart", PyNone);
      ("notification_handler.dart", PyNone)
    ]));
    ("media", PyDict (mapping [
      ("media_service.dart", PyNone);
      ("image_service.dart", PyNone);
      ("video_service.dart", PyNone);
      ("audio_service.dart", PyNone);
      ("file_picker_service.dart", PyNone)
    ]));
    ("call", PyDict (mapping [
      ("webrtc_service.dart", PyNone);
      ("call_manager.dart", PyNone);
      ("signaling_service.dart", PyNone)
    ]));
    ("location", PyDict (mapping [
      ("location_service.dart", PyNone);
      ("maps_service.dart", PyNone)
    ]))
  ]));
  ("providers", PyDict (mapping [
    ("auth", PyDict (mapping [
      ("auth_provider.dart", PyNone);
      ("user_provider.dart", PyNone);
      ("auth_state.dart", PyNone)
    ]));
    ("chat", PyDict (mapping [
      ("chat_provider.dart", PyNone);
      ("message_provider.dart", PyNone);
      ("typing_provider.dart", PyNone);
      ("chat_list_provider.dart", PyNone)
    ]));
    ("group", PyDict (mapping [
      ("group_provider.dart", PyNone);
      ("group_member_provider.dart", PyNone);
      ("group_settings_provider.dart", PyNone)
    ]));
    ("call", PyDict (mapping [
      ("call_provider.dart", PyNone);
      ("webrtc_provider.dart", PyNone);
      ("call_history_provider.dart", PyNone)
    ]));
    ("file", PyDict (mapping [
      ("file_provider.dart", PyNone);
      ("media_provider.dart", PyNone);
      ("upload_provider.dart", PyNone)
    ]));
    ("settings", PyDict (mapping [
      ("settings_provider.dart", PyNone);
      ("theme_provider.dart", PyNone);
      ("language_provider.dart", PyNone)
    ]));
    ("common", PyDict (mapping [
      ("connectivity_provider.dart", PyNone);
      ("permission_provider.dart", PyNone);
      ("notification_provider.dart", PyNone)
    ]))
  ]));
  ("screens", PyDict (mapping [
    ("auth", PyDict (mapping [
      ("login_screen.dart", PyNone);
      ("register_screen.dart", PyNone);
      ("otp_verification_screen.dart", PyNone);
      ("phone_input_screen.dart", PyNone);
      ("profile_setup_screen.dart", PyNone)
    ]));
    ("chat", PyDict (mapping [
      ("chat_list_screen.dart", PyNone);
      ("chat_screen.dart", PyNone);
      ("chat_info_screen.dart", PyNone);
      ("new_chat_screen.dart", PyNone);
      ("search_chat_screen.dart", PyNone)
    ]));
    ("group", PyDict (mapping [
      ("group_list_screen.dart", PyNone);
      ("group_chat_screen.dart", PyNone);
      ("group_info_screen.dart", PyNone);
      ("create_group_screen.dart", PyNone);
      ("add_members_screen.dart", PyNone);
      ("group_settings_screen.dart", PyNone);
      ("group_invite_screen.dart", PyNone)
    ]));
    ("call", PyDict (mapping [
      ("call_screen.dart", PyNone);
      ("incoming_call_screen.dart", PyNone);
      ("outgoing_call_screen.dart", PyNone);
      ("call_history_screen.dart", PyNone);
      ("video_call_screen.dart", PyNone)
    ]));
    ("settings", PyDict (mapping [
      ("settings_screen.dart", PyNone);
      ("profile_screen.dart", PyNone);
      ("privacy_screen.dart", PyNone);
      ("notification_settings_screen.dart", PyNone);
      ("chat_settings_screen.dart", PyNone);
      ("storage_settings_screen.dart", PyNone);
      ("about_screen.dart", PyNone)
    ]));
    ("media", PyDict (mapping [
      ("image_viewer_screen.dart", PyNone);
      ("video_player_screen.dart", PyNone);
      ("document_viewer_screen.dart", PyNone);
      ("camera_screen.dart", PyNone);
      ("gallery_screen.dart", PyNone)
    ]));
    ("status", PyDict (mapping [
      ("status_screen.dart", PyNone);
      ("add_status_screen.dart", PyNone);
      ("status_viewer_screen.dart", PyNone);
      ("status_privacy_screen.dart", PyNone)
    ]));
    ("common", PyDict (mapping [
      ("splash_screen.dart", PyNone);
      ("onboarding_screen.dart", PyNone);
      ("main_navigation_screen.dart", PyNone);
      ("search_screen.dart", PyNone);
      ("error_screen.dart", PyNone)
    ]))
  ]));
  ("widgets", PyDict (mapping [
    ("common", PyDict (mapping [
      ("custom_app_bar.dart", PyNone);
      ("custom_button.dart", PyNone);
      ("custom_text_field.dart", PyNone);
      ("custom_dialog.dart", PyNone);
      ("custom_bottom_sheet.dart", PyNone);
      ("loading_widget.dart", PyNone);
      ("error_widget.dart", PyNone);
      ("empty_state_widget.dart", PyNone);
      ("custom_fab.dart", PyNone);
      ("custom_badge.dart", PyNone);
      ("custom_divider.dart", PyNone)
    ]));
    ("auth", PyDict (mapping [
      ("phone_input_widget.dart", PyNone);
      ("otp_input_widget.dart", PyNone);
      ("country_picker_widget.dart", PyNone);
      ("profile_picture_widget.dart", PyNone)
    ]));
    ("chat", PyDict (mapping [
      ("chat_tile.dart", PyNone);
      ("message_bubble.dart", PyNone);
      ("message_input.dart", PyNone);
      ("typing_indicator.dart", PyNone);
      ("voice_note_player.dart", PyNone);
      ("chat_app_bar.dart", PyNone);
      ("message_reply_preview.dart", PyNone);
      ("emoji_picker_widget.dart", PyNone);
      ("attachment_picker.dart", PyNone);
      ("read_receipt_widget.dart", PyNone)
    ]));
    ("group", PyDict (mapping [
      ("group_tile.dart", PyNone);
      ("group_member_tile.dart", PyNone);
      ("group_info_widget.dart", PyNone);
      ("member_picker_widget.dart", PyNone);
      ("group_permissions_widget.dart", PyNone)
    ]));
    ("call", PyDict (mapping [
      ("call_tile.dart", PyNone);
      ("call_controls.dart", PyNone);
      ("call_participant_widget.dart", PyNone);
      ("call_overlay.dart", PyNone);
      ("call_stats_widget.dart", PyNone)
    ]));
    ("media", PyDict (mapping [
      ("image_message_widget.dart", PyNone);
      ("video_message_widget.dart", PyNone);
      ("audio_message_widget.dart", PyNone);
      ("document_message_widget.dart", PyNone);
      ("location_message_widget.dart", PyNone);
      ("contact_message_widget.dart", PyNone);
      ("media_grid_widget.dart", PyNone);
      ("media_thumbnail.dart", PyNone)
    ]));
    ("settings", PyDict (mapping [
      ("settings_tile.dart", PyNone);
      ("settings_section.dart", PyNone);
      ("switch_tile.dart", PyNone);
      ("slider_tile.dart", PyNone)
    ]));
    ("status", PyDict (mapping [
      ("status_tile.dart", PyNone);
      ("status_viewer_widget.dart", PyNone);
      ("status_progress_widget.dart", PyNone);
      ("status_input_widget.dart", PyNone)
    ]))
  ]));
  ("router", PyDict (mapping [
    ("app_router.dart", PyNone);
    ("route_names.dart", PyNone);
    ("route_transitions.dart", PyNone);
    ("router_config.dart", PyNone)
  ]));
  ("theme", PyDict (mapping [
    ("app_theme.dart", PyNone);
    ("light_theme.dart", PyNone);
    ("dark_theme.dart", PyNone);
    ("colors.dart", PyNone);
    ("text_styles.dart", PyNone);
    ("dimensions.dart", PyNone);
    ("custom_theme_extensions.dart", PyNone)
  ]))
].

Definition create_directory_structure (w : world) : (OSError + unit) * world :=
  match create_structure [base_dir] structure (files w) with
  | (inl e, s') => (inl e, World s' (stdout w))
  | (inr _, s') =>
      (inr tt,
       World s' (stdout w ++
         ["Directory structure created successfully under '" +:+ base_dir +:+ "'"]))
  end.

(** ** The nodes of a tree and their computed paths *)

(** Paths of the File Markers of [d], in the order of the walk. *)
Fixpoint file_paths (base_path : path) (d : dict) : list path :=
  match d with
  | Empty => []
  | Item name c rest =>
      match c with
      | PyNone => [join base_path name]
      | PyDict sub => file_paths (join base_path name) sub
      end ++ file_paths base_path rest
  end.

(** Paths of the Directory Nodes strictly below the root. *)
Fixpoint subdir_paths (base_path : path) (d : dict) : list path :=
  match d with
  | Empty => []
  | Item name c rest =>
      match c with
      | PyNone => []
      | PyDict sub => join base_path name :: subdir_paths (join base_path name) sub
      end ++ subdir_paths base_path rest
  end.



(** ** The walk as a sequence of steps

    The filesystem calls of a walk, listed in the order in which
    [create_structure] issues them.  [create_structure_run] shows that the
    routine is the run of its plan; [trace] records that run step by step. *)

Inductive step : Type :=
  | EnsureBase (p : path)    (* the guarded [os.makedirs(base_path)] *)
  | CreateFile (p : path)    (* [open(path, 'w')] of a file marker *)
  | EnsureDir (p : path).    (* [os.makedirs(path, exist_ok=True)] *)

Definition exec (c : step) : io unit :=
  match c with
  | EnsureBase p => ensure_base p
  | CreateFile p => open_w p
  | EnsureDir p => os_makedirs p true
  end.

Definition target (c : step) : path :=
  match c with EnsureBase p | CreateFile p | EnsureDir p => p end.

(** The steps that process the children of a directory node: they act on an
    entry of that node's directory. *)
Definition child_step (c : step) : bool :=
  match c with EnsureBase _ => false | _ => true end.

(** The steps the loop over [d] takes, in order, if none of them fails. *)
Fixpoint plan_items (base_path : path) (d : dict) : list step :=
  match d with
  | Empty => []
  | Item name c rest =>
      let path := join base_path name in
      match c with
      | PyNone => [CreateFile path]
      | PyDict sub => EnsureDir path :: EnsureBase path :: plan_items path sub
      end ++ plan_items base_path rest
  end.

Definition plan (base_path : path) (d : dict) : list step :=
  EnsureBase base_path :: plan_items base_path d.

(** Running a sequence of steps: it stops at the first one that raises. *)
Fixpoint run (l : list step) : io unit :=
  match l with
  | [] => ret tt
  | c :: l' => exec c ;; run l'
  end.

(** One executed step: the state it found, what it did and what it left. *)
Record event : Type := Event {
  ev_before : fs;
  ev_call : step;
  ev_result : OSError + unit;
  ev_after : fs
}.

Fixpoint trace (l : list step) (s : fs) : list event :=
  match l with
  | [] => []
  | c :: l' =>
      match exec c s with
      | (inl e, s') => [Event s c (inl e) s']
      | (inr _, s') => Event s c (inr tt) s' :: trace l' s'
      end
  end.



(** The parent of the entry a child step acts on has property [Q] in the
    state the step finds. *)
Definition parent_ok (Q : fs -> path -> Prop) (ev : event) : Prop :=
  child_step (ev_call ev) = true -> Q (ev_before ev) (tail (target (ev_call ev))).

(** ** Relations between states *)

(** [s'] comes after [s]: every entry is still there, unchanged except that
    a writable file may have been truncated. *)
Definition evolves (s s' : fs) : Prop :=
  forall p e, s !! p = Some e ->
    s' !! p = Some e \/
    exists data, e = RegularFile true data /\ s' !! p = Some (RegularFile true []).

(** What a directory-making call on [name] may do to the state: existing
    entries stay as they are, and whatever is new is a writable directory on
    the way to [name]. *)
Definition only_adds_dirs (name : path) (s s' : fs) : Prop :=
  s ⊆ s' /\
  (forall q x, s !! q = None -> s' !! q = Some x ->
     x = Directory true /\ q `suffix_of` name) /\
  (wf s -> wf s').

(** The state already holds everything the loop over [d] would make. *)
Fixpoint materialized (base_path : path) (d : dict) (s : fs) : Prop :=
  match d with
  | Empty => True
  | Item name c rest =>
      match c with
      | PyNone => s !! join base_path name = Some (RegularFile true [])
      | PyDict sub =>
          is_dir s (join base_path name) /\ materialized (join base_path name) sub s
      end /\ materialized base_path rest s
  end.

(** ** Concrete states and trees used in examples *)

(** A fresh, writable start directory. *)
Definition fresh : fs := {[ [] := Directory true ]}.


(** [lib] exists but may not be written to, and holds a writable [core]. *)
Definition lib_read_only : fs :=
  <[ ["core"; "lib"] := Directory true ]> (<[ ["lib"] := Directory false ]> fresh).

(** [out/a.txt] exists with some contents. *)
Definition out_with_file : fs :=
  <[ ["a.txt"; "out"] := RegularFile true [Byte.x6f; Byte.x6c; Byte.x64] ]>
    (<[ ["out"] := Directory true ]> fresh).

(** The tree of the specification's scenario:
    [{"a.txt": FILE, "sub": {"b.txt": FILE}}]. *)
Definition scenario : dict :=
  mapping [("a.txt", PyNone); ("sub", PyDict (mapping [("b.txt", PyNone)]))].

Definition core_then_main : dict :=
  mapping [("core", PyDict (mapping [("x.dart", PyNone)])); ("main.dart", PyNone)].


(** What the scenario leaves below [out], from a fresh start directory. *)
Definition scenario_made : fs :=
  <[ ["b.txt"; "sub"; "out"] := RegularFile true [] ]>
    (<[ ["sub"; "out"] := Directory true ]>
       (<[ ["a.txt"; "out"] := RegularFile true [] ]>
          (<[ ["out"] := Directory true ]> fresh))).



(** [out/a.txt] exists, has contents and may not be written. *)
Definition out_with_locked_file : fs :=
  <[ ["a.txt"; "out"] := RegularFile false [Byte.x6f; Byte.x6c; Byte.x64] ]>
    (<[ ["out"] := Directory true ]> fresh).

(** [lib_read_only] after [lib/core/x.dart] was made. *)
Definition core_file_made : fs :=
  <[ ["x.dart"; "core"; "lib"] := RegularFile true [] ]> lib_read_only.

(** The scenario's tree with its two items in the other order. *)
Definition scenario_swapped : dict :=
  mapping [("sub", PyDict (mapping [("b.txt", PyNone)])); ("a.txt", PyNone)].

(** The path strings the walk computes, one per node below the root, in the
    order of the walk: [path = os.path.join(base_path, name)] for each item,
    and those of the recursive calls. *)
Fixpoint node_strings (base_path : string) (d : dict) : list string :=
  match d with
  | Empty => []
  | Item name c rest =>
      let path := posixpath_join base_path name in
      (path :: match c with
               | PyNone => []
               | PyDict sub => node_strings path sub
               end) ++ node_strings base_path rest
  end.

(** The same on component paths. *)
Fixpoint walk_paths (base_path : path) (d : dict) : list path :=
  match d with
  | Empty => []
  | Item name c rest =>
      let path := join base_path name in
      (path :: match c with
               | PyNone => []
               | PyDict sub => walk_paths path sub
               end) ++ walk_paths base_path rest
  end.

(** * Proofs *)

(** ** Induction along the walk *)

Lemma dict_walk_ind (P : dict -> Prop) :
  P Empty ->
  (forall name rest, P rest -> P (Item name PyNone rest)) ->
  (forall name sub rest, P sub -> P rest -> P (Item name (PyDict sub) rest)) ->
  forall d, P d.
Proof.
  intros HE HF HD. fix IH 1. intros [|name [|sub] rest].
  - exact HE.
  - apply HF, IH.
  - apply HD; apply IH.
Qed.

(** ** The monad *)

Lemma bind_inr {A B} (m : io A) (k : A -> io B) s x s1 :
  m s = (inr x, s1) -> bind m k s = k x s1.
Proof. unfold bind. now intros ->. Qed.


Lemma bind_inv_inr {A B} (m : io A) (k : A -> io B) s y s' :
  bind m k s = (inr y, s') ->
  exists x s1, m s = (inr x, s1) /\ k x s1 = (inr y, s').
Proof.
  unfold bind. destruct (m s) as [[e|x] s1]; [discriminate|]. eauto.
Qed.

Lemma bind_inv_inl {A B} (m : io A) (k : A -> io B) s e s' :
  bind m k s = (inl e, s') ->
  m s = (inl e, s') \/ exists x s1, m s = (inr x, s1) /\ k x s1 = (inl e, s').
Proof.
  unfold bind. destruct (m s) as [[e0|x] s1]; [left; congruence|]. eauto.
Qed.

(** ** The recursive routine and its loop *)

Lemma create_structure_unfold base_path d :
  create_structure base_path d = (ensure_base base_path ;; for_items base_path d).
Proof.
  destruct d as [|name c rest]; [reflexivity|].
  cbn [create_structure for_items].
  match goal with
  | |- bind _ (fun _ => bind _ (fun _ => ?F rest)) = _ =>
      assert (HF : forall d, F d = for_items base_path d)
  end.
  { induction d as [|n0 c0 rest0 IH]; [reflexivity|].
    cbn [for_items]. rewrite <- IH. reflexivity. }
  rewrite HF. reflexivity.
Qed.

Lemma for_items_file base_path name rest :
  for_items base_path (Item name PyNone rest) =
  (open_w (join base_path name) ;; for_items base_path rest).
Proof. reflexivity. Qed.

Lemma for_items_dir base_path name sub rest :
  for_items base_path (Item name (PyDict sub) rest) =
  ((os_makedirs (join base_path name) true ;;
    create_structure (join base_path name) sub) ;;
   for_items base_path rest).
Proof. reflexivity. Qed.

(** ** The filesystem calls one by one *)

Lemma create_entry_inr p e s u s' :
  create_entry p e s = (inr u, s') ->
  exists n parent,
    p = n :: parent /\ s !! parent = Some (Directory true) /\ s' = <[p := e]> s.
Proof.
  unfold create_entry. destruct p as [|n parent]; [discriminate|].
  destruct (s !! parent) as [[[]|]|] eqn:E; try discriminate.
  intros [= _ <-]. eauto.
Qed.

Lemma create_entry_inl p e s err s' :
  create_entry p e s = (inl err, s') -> s' = s.
Proof.
  unfold create_entry. destruct p as [|n parent]; [congruence|].
  destruct (s !! parent) as [[[]|]|]; congruence.
Qed.

Lemma os_mkdir_inr p s u s' :
  os_mkdir p s = (inr u, s') ->
  s !! p = None /\
  exists n parent,
    p = n :: parent /\ s !! parent = Some (Directory true) /\
    s' = <[p := Directory true]> s.
Proof.
  unfold os_mkdir. destruct (s !! p) eqn:E; [discriminate|].
  intros H. split; [reflexivity|]. eapply create_entry_inr, H.
Qed.

Lemma os_mkdir_inl p s err s' : os_mkdir p s = (inl err, s') -> s' = s.
Proof.
  unfold os_mkdir. destruct (s !! p); [congruence|]. apply create_entry_inl.
Qed.

Lemma open_w_inr p s u s' :
  open_w p s = (inr u, s') ->
  s' = <[p := RegularFile true []]> s /\
  ((exists data, s !! p = Some (RegularFile true data)) \/
   (s !! p = None /\ exists n parent,
      p = n :: parent /\ s !! parent = Some (Directory true))).
Proof.
  unfold open_w. destruct (s !! p) as [[w|[] data]|] eqn:E; try discriminate.
  - intros [= _ <-]. eauto.
  - intros H. apply create_entry_inr in H as (n & parent & -> & Hp & ->). eauto 8.
Qed.

Lemma open_w_inl p s err s' : open_w p s = (inl err, s') -> s' = s.
Proof.
  unfold open_w. destruct (s !! p) as [[w|[] data]|]; try congruence.
  apply create_entry_inl.
Qed.

Lemma mkdir_leaf_cases name exist_ok s r s' :
  mkdir_leaf name exist_ok s = (r, s') ->
  (r = inr tt /\ s !! name = None /\
   exists n parent, name = n :: parent /\ s !! parent = Some (Directory true) /\
                    s' = <[name := Directory true]> s) \/
  (r = inr tt /\ exist_ok = true /\ is_dir s name /\ s' = s) \/
  ((exists err, r = inl err) /\ s' = s).
Proof.
  unfold mkdir_leaf, try_except.
  destruct (os_mkdir name s) as [[err|[]] s1] eqn:E.
  - apply os_mkdir_inl in E as ->.
    unfold bind, os_path_isdir.
    destruct exist_ok; cbn.
    + destruct (s !! name) as [[w|w data]|] eqn:En; cbn; intros [= <- <-];
        unfold is_dir; eauto 10.
    + intros [= <- <-]. eauto.
  - intros [= <- <-]. left. apply os_mkdir_inr in E as (? & ?). auto.
Qed.

(** One unfolding of [os.makedirs]: the ancestors, then the leaf. *)
Lemma os_makedirs_unfold name exist_ok :
  os_makedirs name exist_ok =
  ((match name with
    | _ :: ((_ :: _) as head) =>
        present <- os_path_exists head ;;
        if present then ret tt
        else try_except (os_makedirs head exist_ok)
               (fun e => match e with FileExistsError => ret tt | _ => raise e end)
    | _ => ret tt
    end) ;;
   mkdir_leaf name exist_ok).
Proof. destruct name; reflexivity. Qed.

(** When the parent is there, [os.makedirs] is the [mkdir] of the leaf. *)
Lemma os_makedirs_parent_present name exist_ok s :
  (tail name = [] \/ is_Some (s !! tail name)) ->
  os_makedirs name exist_ok s = mkdir_leaf name exist_ok s.
Proof.
  intros H. rewrite os_makedirs_unfold.
  destruct name as [|n [|h t]]; try reflexivity.
  cbn [tail] in H. destruct H as [H|H]; [discriminate|].
  unfold bind at 1. unfold bind at 1. unfold os_path_exists.
  rewrite bool_decide_eq_true_2 by exact H. reflexivity.
Qed.

Lemma wf_insert p e s :
  wf s ->
  (forall n parent, p = n :: parent -> is_dir s parent) ->
  (is_dir s p -> exists w, e = Directory w) ->
  wf (<[p := e]> s).
Proof.
  intros Hwf Hpar Hkind n parent e' Hl.
  assert (Hd : is_dir s parent).
  { destruct (decide (p = n :: parent)) as [->|Hne].
    - eapply Hpar; reflexivity.
    - rewrite lookup_insert_ne in Hl by exact Hne. eapply Hwf, Hl. }
  destruct (decide (p = parent)) as [->|Hne].
  - destruct (Hkind Hd) as [w ->]. exists w. apply lookup_insert_eq.
  - destruct Hd as [w Hd]. exists w. rewrite lookup_insert_ne by exact Hne. exact Hd.
Qed.

Lemma only_adds_dirs_refl name s : only_adds_dirs name s s.
Proof.
  split; [reflexivity|]. split; [|tauto].
  intros q x Hn Hs. congruence.
Qed.

Lemma only_adds_dirs_trans head name s s1 s2 :
  head `suffix_of` name ->
  only_adds_dirs head s s1 -> only_adds_dirs name s1 s2 ->
  only_adds_dirs name s s2.
Proof.
  intros Hsuf (Hsub1 & Hnew1 & Hwf1) (Hsub2 & Hnew2 & Hwf2).
  split; [etransitivity; eassumption|]. split; [|tauto].
  intros q x Hn Hs.
  destruct (s1 !! q) as [y|] eqn:E1.
  - destruct (Hnew1 q y Hn E1) as [-> Hq].
    rewrite (lookup_weaken _ _ _ _ E1 Hsub2) in Hs. injection Hs as <-.
    split; [reflexivity|]. etransitivity; eassumption.
  - eapply Hnew2; eassumption.
Qed.

Lemma mkdir_leaf_only_adds name exist_ok s r s' :
  mkdir_leaf name exist_ok s = (r, s') -> only_adds_dirs name s s'.
Proof.
  intros H. apply mkdir_leaf_cases in H
    as [(_ & Hn & n & parent & -> & Hp & ->)|[(_ & _ & _ & ->)|(_ & ->)]];
    try apply only_adds_dirs_refl.
  split; [apply insert_subseteq, Hn|]. split.
  - intros q x Hq Hs. destruct (decide (n :: parent = q)) as [<-|Hne].
    + rewrite lookup_insert_eq in Hs. injection Hs as <-. split; reflexivity.
    + rewrite lookup_insert_ne in Hs by exact Hne. congruence.
  - intros Hwf. apply wf_insert; [exact Hwf| |].
    + intros n' parent' [= _ <-]. exists true. exact Hp.
    + eauto.
Qed.

Lemma os_makedirs_only_adds name exist_ok s r s' :
  os_makedirs name exist_ok s = (r, s') -> only_adds_dirs name s s'.
Proof.
  revert s r s'. induction name as [|n head IH]; intros s r s'.
  - rewrite os_makedirs_parent_present by (left; reflexivity).
    apply mkdir_leaf_only_adds.
  - destruct (decide (tail (n :: head) = [] \/ is_Some (s !! tail (n :: head))))
      as [Hp|Hp].
    { rewrite os_makedirs_parent_present by exact Hp. apply mkdir_leaf_only_adds. }
    cbn [tail] in Hp. destruct head as [|h t]; [tauto|].
    rewrite os_makedirs_unfold.
    unfold bind at 1. unfold bind at 1. unfold os_path_exists.
    rewrite bool_decide_eq_false_2 by tauto.
    unfold try_except at 1.
    destruct (os_makedirs (h :: t) exist_ok s) as [[e|[]] s1] eqn:E;
      apply IH in E.
    + assert (Hsuf : (h :: t) `suffix_of` (n :: h :: t)) by (exists [n]; reflexivity).
      destruct e; cbn;
        try (intros [= <- <-];
             eapply only_adds_dirs_trans; [exact Hsuf|exact E|apply only_adds_dirs_refl]).
      intros H. apply mkdir_leaf_only_adds in H.
      eapply only_adds_dirs_trans; eassumption.
    + intros H. apply mkdir_leaf_only_adds in H.
      eapply only_adds_dirs_trans; [|exact E|exact H]. exists [n]; reflexivity.
Qed.

Lemma mkdir_leaf_creates name parent exist_ok s :
  s !! (name :: parent) = None ->
  s !! parent = Some (Directory true) ->
  mkdir_leaf (name :: parent) exist_ok s =
  (inr tt, <[name :: parent := Directory true]> s).
Proof.
  intros Hn Hp. unfold mkdir_leaf, try_except, os_mkdir, create_entry.
  rewrite Hn, Hp. reflexivity.
Qed.


(** How a call of [os.makedirs] ends: in the [mkdir] of the leaf, reached
    directly or after the ancestors were made, or in the error of making the
    ancestors. *)
Lemma os_makedirs_decompose name exist_ok s r s' :
  os_makedirs name exist_ok s = (r, s') ->
  (exists s1,
     mkdir_leaf name exist_ok s1 = (r, s') /\
     (s1 = s \/
      (s !! tail name = None /\
       exists r1, os_makedirs (tail name) exist_ok s = (r1, s1) /\
                  (r1 = inr tt \/ r1 = inl FileExistsError)))) \/
  (exists e,
     r = inl e /\ s !! tail name = None /\
     os_makedirs (tail name) exist_ok s = (inl e, s')).
Proof.
  destruct (decide (tail name = [] \/ is_Some (s !! tail name))) as [Hp|Hp].
  { rewrite os_makedirs_parent_present by exact Hp. eauto. }
  destruct name as [|n [|h t]]; cbn [tail] in *; try tauto.
  assert (Habs : s !! (h :: t) = None).
  { destruct (s !! (h :: t)) eqn:E; [|reflexivity]. exfalso. apply Hp. eauto. }
  rewrite os_makedirs_unfold.
  unfold bind at 1. unfold bind at 1. unfold os_path_exists.
  rewrite bool_decide_eq_false_2 by tauto.
  unfold try_except at 1.
  destruct (os_makedirs (h :: t) exist_ok s) as [[e|[]] s1] eqn:E.
  - destruct e; cbn; try (intros [= <- <-]; right; eauto).
    intros H. left. exists s1. eauto 8.
  - intros H. left. exists s1. eauto 8.
Qed.

Lemma os_makedirs_inr name exist_ok s u s' :
  os_makedirs name exist_ok s = (inr u, s') -> is_dir s' name.
Proof.
  intros H. apply os_makedirs_decompose in H as [(s1 & H & _)|(e & ? & _)];
    [|discriminate].
  apply mkdir_leaf_cases in H
    as [(_ & _ & n & parent & -> & _ & ->)|[(_ & _ & Hd & ->)|([e ?] & _)]].
  - exists true. apply lookup_insert_eq.
  - exact Hd.
  - discriminate.
Qed.

Lemma suffix_tail_absurd (name : path) : name <> [] -> ~ name `suffix_of` tail name.
Proof.
  intros Hne Hs. apply suffix_length in Hs.
  destruct name; [congruence|]. cbn in Hs. lia.
Qed.

(** Making an absent path either succeeds or leaves no trace. *)
Lemma os_makedirs_absent_inl name exist_ok s e s' :
  s !! name = None ->
  os_makedirs name exist_ok s = (inl e, s') -> s' = s.
Proof.
  revert s e s'. induction name as [|n head IH]; intros s e s' Habs H.
  - rewrite os_makedirs_parent_present in H by (left; reflexivity).
    apply mkdir_leaf_cases in H as [(? & _)|[(? & _)|(_ & ->)]]; congruence.
  - apply os_makedirs_decompose in H as [(s1 & H & Hs1)|(e' & _ & Hh & H)];
      cbn [tail] in *.
    + destruct Hs1 as [->|(Hh & r1 & E & [->| ->])].
      * apply mkdir_leaf_cases in H as [(? & _)|[(? & _)|(_ & ->)]]; congruence.
      * exfalso.
        pose proof (os_makedirs_only_adds _ _ _ _ _ E) as (_ & Hnew & _).
        destruct (os_makedirs_inr _ _ _ _ _ E) as [w Hd].
        destruct (Hnew _ _ Hh Hd) as [[= ->] _].
        assert (Hn1 : s1 !! (n :: head) = None).
        { destruct (s1 !! (n :: head)) as [y|] eqn:E1; [|reflexivity].
          destruct (Hnew _ _ Habs E1) as [_ Hsuf].
          exfalso. eapply (suffix_tail_absurd (n :: head)); [discriminate|exact Hsuf]. }
        rewrite mkdir_leaf_creates in H by assumption. discriminate.
      * apply IH in E as ->; [|exact Hh].
        apply mkdir_leaf_cases in H as [(? & _)|[(? & _)|(_ & ->)]]; congruence.
    + eapply IH; eassumption.
Qed.

(** *** The guarded creation of the base directory *)

Lemma ensure_base_present p s :
  is_Some (s !! p) -> ensure_base p s = (inr tt, s).
Proof.
  intros H. unfold ensure_base, bind, os_path_exists.
  rewrite bool_decide_eq_true_2 by exact H. reflexivity.
Qed.

Lemma ensure_base_absent p s :
  s !! p = None -> ensure_base p s = os_makedirs p false s.
Proof.
  intros H. unfold ensure_base, bind, os_path_exists.
  rewrite bool_decide_eq_false_2; [reflexivity|].
  rewrite H. intros [? ?]. discriminate.
Qed.

Lemma ensure_base_cases p s :
  (is_Some (s !! p) /\ ensure_base p s = (inr tt, s)) \/
  (s !! p = None /\ ensure_base p s = os_makedirs p false s).
Proof.
  destruct (s !! p) eqn:E.
  - left. split; [eauto|]. apply ensure_base_present. rewrite E; eauto.
  - right. split; [reflexivity|]. apply ensure_base_absent, E.
Qed.

Lemma ensure_base_only_adds p s r s' :
  ensure_base p s = (r, s') -> only_adds_dirs p s s'.
Proof.
  destruct (ensure_base_cases p s) as [[_ ->]|[_ ->]].
  - intros [= _ <-]. apply only_adds_dirs_refl.
  - apply os_makedirs_only_adds.
Qed.

Lemma ensure_base_inl p s e s' : ensure_base p s = (inl e, s') -> s' = s.
Proof.
  destruct (ensure_base_cases p s) as [[_ ->]|[Habs ->]]; [congruence|].
  apply os_makedirs_absent_inl, Habs.
Qed.

Lemma ensure_base_inr p s u s' :
  ensure_base p s = (inr u, s') ->
  (is_Some (s !! p) /\ s' = s) \/
  (s !! p = None /\ s' !! p = Some (Directory true)).
Proof.
  destruct (ensure_base_cases p s) as [[Hs ->]|[Habs ->]].
  - intros [= <-]. auto.
  - intros H. right. split; [exact Habs|].
    destruct (os_makedirs_inr _ _ _ _ _ H) as [w Hd].
    pose proof (os_makedirs_only_adds _ _ _ _ _ H) as (_ & Hnew & _).
    destruct (Hnew _ _ Habs Hd) as [[= ->] _]. exact Hd.
Qed.

(** ** How states evolve *)

Lemma evolves_refl s : evolves s s.
Proof. intros p e H. now left. Qed.

Lemma evolves_trans s1 s2 s3 : evolves s1 s2 -> evolves s2 s3 -> evolves s1 s3.
Proof.
  intros H12 H23 p e H.
  destruct (H12 p e H) as [H2|(data & -> & H2)].
  - exact (H23 p e H2).
  - right. exists data. split; [reflexivity|].
    destruct (H23 _ _ H2) as [H3|(? & _ & H3)]; exact H3.
Qed.


Lemma subseteq_evolves (s s' : fs) : s ⊆ s' -> evolves s s'.
Proof. intros Hsub p e H. left. eapply lookup_weaken; eassumption. Qed.

Lemma only_adds_dirs_evolves name s s' : only_adds_dirs name s s' -> evolves s s'.
Proof. intros [H _]. apply subseteq_evolves, H. Qed.

Lemma evolves_truncate (p : path) (data : list Byte.byte) (s : fs) :
  s !! p = Some (RegularFile true data) ->
  evolves s (<[p := RegularFile true []]> s).
Proof.
  intros Hp q e Hq. destruct (decide (p = q)) as [<-|Hne].
  - right. exists data. rewrite lookup_insert_eq. split; congruence.
  - left. rewrite lookup_insert_ne by exact Hne. exact Hq.
Qed.

Lemma evolves_is_Some s s' p : evolves s s' -> is_Some (s !! p) -> is_Some (s' !! p).
Proof.
  intros H [e He]. destruct (H p e He) as [H'|(? & _ & H')]; rewrite H'; eauto.
Qed.

Lemma evolves_dir s s' p w :
  evolves s s' -> s !! p = Some (Directory w) -> s' !! p = Some (Directory w).
Proof.
  intros H He. destruct (H p _ He) as [H'|(? & ? & _)]; [exact H'|discriminate].
Qed.

Lemma evolves_is_dir s s' p : evolves s s' -> is_dir s p -> is_dir s' p.
Proof. intros H [w Hd]. exists w. eapply evolves_dir; eassumption. Qed.

Lemma evolves_settled s s' p :
  evolves s s' ->
  s !! p = Some (RegularFile true []) -> s' !! p = Some (RegularFile true []).
Proof.
  intros H He. destruct (H p _ He) as [H'|(? & _ & H')]; exact H'.
Qed.

Lemma evolves_file s s' p w data :
  evolves s s' ->
  s !! p = Some (RegularFile w data) ->
  exists data', s' !! p = Some (RegularFile w data') /\ (data' = data \/ data' = []).
Proof.
  intros H He. destruct (H p _ He) as [H'|(d & [= -> ->] & H')]; eauto.
Qed.

(** ** Single steps of the walk *)

Lemma exec_evolves c s r s' : exec c s = (r, s') -> evolves s s'.
Proof.
  destruct c as [p|p|p]; cbn [exec]; intros H.
  - eapply only_adds_dirs_evolves, ensure_base_only_adds, H.
  - destruct r as [e|u].
    + apply open_w_inl in H as ->. apply evolves_refl.
    + apply open_w_inr in H as [-> [[data Hd]|[Hn _]]].
      * eapply evolves_truncate, Hd.
      * apply subseteq_evolves, insert_subseteq, Hn.
  - eapply only_adds_dirs_evolves, os_makedirs_only_adds, H.
Qed.

Lemma exec_wf c s r s' : exec c s = (r, s') -> wf s -> wf s'.
Proof.
  destruct c as [p|p|p]; cbn [exec]; intros H Hwf.
  - apply ensure_base_only_adds in H as (_ & _ & H). auto.
  - destruct r as [e|u].
    + apply open_w_inl in H as ->. exact Hwf.
    + apply open_w_inr in H as [-> H]. apply wf_insert; [exact Hwf| |].
      * intros n parent ->.
        destruct H as [[data Hd]|[_ (n' & parent' & [= _ <-] & Hp)]].
        -- eapply Hwf, Hd.
        -- exists true. exact Hp.
      * intros [w Hd]. destruct H as [[data Hf]|[Hn _]]; congruence.
  - apply os_makedirs_only_adds in H as (_ & _ & H). auto.
Qed.

(** A step changes an existing entry only by truncating the file it is
    told to create. *)
Lemma exec_frame c s r s' p x :
  exec c s = (r, s') -> s !! p = Some x -> c <> CreateFile p -> s' !! p = Some x.
Proof.
  destruct c as [q|q|q]; cbn [exec]; intros H Hp Hc.
  - apply ensure_base_only_adds in H as (Hsub & _).
    eapply lookup_weaken; eassumption.
  - destruct r as [e|u].
    + apply open_w_inl in H as ->. exact Hp.
    + apply open_w_inr in H as [-> _].
      rewrite lookup_insert_ne; [exact Hp|congruence].
  - apply os_makedirs_only_adds in H as (Hsub & _).
    eapply lookup_weaken; eassumption.
Qed.

(** What a step adds is a writable directory or an empty writable file. *)
Lemma exec_created c s r s' q x :
  exec c s = (r, s') -> s !! q = None -> s' !! q = Some x ->
  x = Directory true \/ x = RegularFile true [].
Proof.
  destruct c as [p|p|p]; cbn [exec]; intros H Hq Hx.
  - apply ensure_base_only_adds in H as (_ & Hnew & _).
    left. eapply Hnew; eassumption.
  - destruct r as [e|u].
    + apply open_w_inl in H as ->. congruence.
    + apply open_w_inr in H as [-> _]. right.
      destruct (decide (p = q)) as [->|Hne].
      * rewrite lookup_insert_eq in Hx. congruence.
      * rewrite lookup_insert_ne in Hx by exact Hne. congruence.
  - apply os_makedirs_only_adds in H as (_ & Hnew & _).
    left. eapply Hnew; eassumption.
Qed.

(** A step that raises leaves the state as it found it, provided the parent
    of a directory to make is there (as it is throughout the walk). *)
Lemma exec_inl_unchanged c s e s' :
  exec c s = (inl e, s') ->
  (child_step c = true -> is_Some (s !! tail (target c))) ->
  s' = s.
Proof.
  destruct c as [p|p|p]; cbn [exec child_step target]; intros H Hpar.
  - eapply ensure_base_inl, H.
  - eapply open_w_inl, H.
  - rewrite os_makedirs_parent_present in H by (right; auto).
    apply mkdir_leaf_cases in H as [(? & _)|[(? & _)|(_ & ->)]]; congruence.
Qed.


(** ** The walk is the run of its plan *)

Lemma bind_assoc {A B C} (m : io A) (k : A -> io B) (h : B -> io C) s :
  bind (bind m k) h s = bind m (fun x => bind (k x) h) s.
Proof. unfold bind. destruct (m s) as [[e|x] s1]; reflexivity. Qed.

Lemma bind_ext {A B} (m : io A) (k k' : A -> io B) s :
  (forall x s1, k x s1 = k' x s1) -> bind m k s = bind m k' s.
Proof. intros H. unfold bind. destruct (m s) as [[e|x] s1]; [reflexivity|apply H]. Qed.

Lemma run_app l1 l2 s : run (l1 ++ l2) s = (run l1 ;; run l2) s.
Proof.
  revert s. induction l1 as [|c l1 IH]; intros s; cbn [run app].
  - reflexivity.
  - rewrite bind_assoc. apply bind_ext. intros _ s1. apply IH.
Qed.

Lemma for_items_run d : forall base_path s,
  for_items base_path d s = run (plan_items base_path d) s.
Proof.
  induction d as [|name rest IH|name sub rest IHsub IH] using dict_walk_ind;
    intros base_path s.
  - reflexivity.
  - rewrite for_items_file. cbn [plan_items app run exec].
    apply bind_ext. intros _ s1. apply IH.
  - rewrite for_items_dir, create_structure_unfold.
    cbn [plan_items app run exec].
    rewrite !bind_assoc. apply bind_ext. intros _ s1.
    rewrite bind_assoc. apply bind_ext. intros _ s2.
    rewrite run_app. unfold bind. rewrite IHsub.
    destruct (run (plan_items (join base_path name) sub) s2) as [[e|u] s3];
      [reflexivity|apply IH].
Qed.

Lemma create_structure_run base_path d s :
  create_structure base_path d s = run (plan base_path d) s.
Proof.
  rewrite create_structure_unfold. cbn [plan run exec].
  apply bind_ext. intros _ s1. apply for_items_run.
Qed.

(** ** Traces *)

Lemma trace_cons c l s :
  trace (c :: l) s =
  match exec c s with
  | (inl e, s') => [Event s c (inl e) s']
  | (inr _, s') => Event s c (inr tt) s' :: trace l s'
  end.
Proof. reflexivity. Qed.

Lemma trace_app l1 l2 s :
  trace (l1 ++ l2) s =
  (trace l1 s ++ match run l1 s with
                 | (inr _, s1) => trace l2 s1
                 | (inl _, _) => []
                 end)%list.
Proof.
  revert s. induction l1 as [|c l1 IH]; intros s; cbn [app run].
  - reflexivity.
  - rewrite !trace_cons. unfold bind.
    destruct (exec c s) as [[e|u] s1]; [reflexivity|].
    cbn [app]. f_equal. apply IH.
Qed.

Lemma run_evolves l : forall s r s', run l s = (r, s') -> evolves s s'.
Proof.
  induction l as [|c l IH]; intros s r s'; cbn [run].
  - intros [= _ <-]. apply evolves_refl.
  - unfold bind. destruct (exec c s) as [[e|u] s1] eqn:E.
    + intros [= _ <-]. eapply exec_evolves, E.
    + intros H. eapply evolves_trans; [eapply exec_evolves, E|eapply IH, H].
Qed.

Lemma run_wf l : forall s r s', run l s = (r, s') -> wf s -> wf s'.
Proof.
  induction l as [|c l IH]; intros s r s'; cbn [run].
  - now intros [= _ <-].
  - unfold bind. destruct (exec c s) as [[e|u] s1] eqn:E.
    + intros [= _ <-]. eapply exec_wf, E.
    + intros H Hwf. eapply IH; [exact H|]. eapply exec_wf; eassumption.
Qed.


(** Every event of a trace is an execution of its call; it happens in a
    state the initial one evolved into, and the state it leaves evolves into
    the final one. *)
Lemma trace_events l : forall s ev,
  ev ∈ trace l s ->
  exec (ev_call ev) (ev_before ev) = (ev_result ev, ev_after ev) /\
  evolves s (ev_before ev) /\
  evolves (ev_after ev) (run l s).2.
Proof.
  induction l as [|c l IH]; intros s ev; [intros H; inversion H|].
  rewrite trace_cons. cbn [run]. unfold bind.
  destruct (exec c s) as [[e|[]] s1] eqn:E.
  - intros ->%list_elem_of_singleton. cbn.
    split; [exact E|]. split; apply evolves_refl.
  - intros [->|Hin]%elem_of_cons.
    + cbn. split; [exact E|]. split; [apply evolves_refl|].
      destruct (run l s1) as [r s2] eqn:Er. eapply run_evolves, Er.
    + destruct (IH _ _ Hin) as (H1 & H2 & H3). split; [exact H1|].
      split; [|exact H3]. eapply evolves_trans; [eapply exec_evolves, E|exact H2].
Qed.



(** A run that raises stopped at the call that raised. *)
Lemma run_inl_trace l : forall s e s',
  run l s = (inl e, s') ->
  exists finished failing skipped,
    trace l s = (finished ++ [failing])%list /\
    l = (map ev_call finished ++ ev_call failing :: skipped)%list /\
    Forall (fun ev => ev_result ev = inr tt) finished /\
    ev_result failing = inl e /\
    ev_after failing = s'.
Proof.
  induction l as [|c l IH]; intros s e s'; cbn [run]; [discriminate|].
  rewrite trace_cons. unfold bind.
  destruct (exec c s) as [[e1|[]] s1] eqn:E.
  - intros [= <- <-]. exists [], (Event s c (inl e1) s1), l.
    repeat split. constructor.
  - intros H. destruct (IH _ _ _ H) as (fin & failing & skipped & Ht & Hl & Hf & He & Ha).
    exists (Event s c (inr tt) s1 :: fin), failing, skipped.
    rewrite Ht. cbn [map ev_call app]. rewrite <- Hl.
    repeat split; try assumption. constructor; [reflexivity|exact Hf].
Qed.

(** ** Invariants of the walk *)

Lemma for_items_evolves base_path d s r s' :
  for_items base_path d s = (r, s') -> evolves s s'.
Proof. rewrite for_items_run. apply run_evolves. Qed.

Lemma create_structure_evolves base_path d s r s' :
  create_structure base_path d s = (r, s') -> evolves s s'.
Proof. rewrite create_structure_run. apply run_evolves. Qed.

Section parents.
(** A property of a path in a state that holds of directories and that
    later states keep: being there, or being a directory. *)
Variable Q : fs -> path -> Prop.
Hypothesis Q_dir : forall s p, is_dir s p -> Q s p.
Hypothesis Q_evolves : forall s s' p, evolves s s' -> Q s p -> Q s' p.

Lemma plan_items_parents d : forall base_path s,
  Q s base_path -> Forall (parent_ok Q) (trace (plan_items base_path d) s).
Proof.
  induction d as [|name rest IH|name sub rest IHsub IH] using dict_walk_ind;
    intros base_path s HQ.
  - constructor.
  - cbn [plan_items app]. rewrite trace_cons.
    destruct (exec _ s) as [[e|[]] s1] eqn:E.
    + repeat constructor. intros _. exact HQ.
    + constructor; [intros _; exact HQ|].
      apply IH. eapply Q_evolves; [eapply exec_evolves, E|exact HQ].
  - cbn [plan_items app]. rewrite trace_cons.
    destruct (exec _ s) as [[e|[]] s1] eqn:E1.
    { repeat constructor. intros _. exact HQ. }
    constructor; [intros _; exact HQ|].
    rewrite trace_cons.
    destruct (exec _ s1) as [[e|[]] s2] eqn:E2.
    { repeat constructor. intros [=]. }
    constructor; [intros [=]|].
    rewrite trace_app. apply Forall_app. split.
    + apply IHsub. apply Q_dir.
      eapply evolves_is_dir; [eapply exec_evolves, E2|].
      eapply os_makedirs_inr, E1.
    + destruct (run _ s2) as [[e|u] s3] eqn:E3; [constructor|].
      apply IH. eapply Q_evolves; [|exact HQ].
      eapply evolves_trans; [eapply exec_evolves, E1|].
      eapply evolves_trans; [eapply exec_evolves, E2|].
      eapply run_evolves, E3.
Qed.

Lemma plan_parents base_path d s :
  (forall s1, ensure_base base_path s = (inr tt, s1) -> Q s1 base_path) ->
  Forall (parent_ok Q) (trace (plan base_path d) s).
Proof.
  intros HQ. unfold plan. rewrite trace_cons. cbn [exec].
  destruct (ensure_base base_path s) as [[e|[]] s1] eqn:E.
  - repeat constructor. intros [=].
  - constructor; [intros [=]|]. apply plan_items_parents, HQ. reflexivity.
Qed.
End parents.


(** ** What a successful walk leaves behind *)

Lemma materialized_evolves d : forall base_path s s',
  evolves s s' -> materialized base_path d s -> materialized base_path d s'.
Proof.
  induction d as [|name rest IH|name sub rest IHsub IH] using dict_walk_ind;
    intros base_path s s' Hev; cbn [materialized].
  - trivial.
  - intros [Hf Hr]. split; [eapply evolves_settled; eassumption|eauto].
  - intros [[Hd Hs] Hr]. split; [split|]; eauto using evolves_is_dir.
Qed.

Lemma for_items_materialized d : forall base_path s u s',
  for_items base_path d s = (inr u, s') -> materialized base_path d s'.
Proof.
  induction d as [|name rest IH|name sub rest IHsub IH] using dict_walk_ind;
    intros base_path s u s'.
  - intros _. exact I.
  - rewrite for_items_file.
    intros (u1 & s1 & Ho & Hr)%bind_inv_inr. cbn [materialized]. split; [|eauto].
    eapply evolves_settled; [eapply for_items_evolves, Hr|].
    apply open_w_inr in Ho as [-> _]. apply lookup_insert_eq.
  - rewrite for_items_dir.
    intros (u2 & s2 & (u1 & s1 & Hm & Hc)%bind_inv_inr & Hr)%bind_inv_inr.
    rewrite create_structure_unfold in Hc.
    apply bind_inv_inr in Hc as (u0 & s0 & He & Hs).
    cbn [materialized]. split; [split|]; [| |eauto].
    + eapply evolves_is_dir; [|eapply os_makedirs_inr, Hm].
      eapply evolves_trans; [eapply exec_evolves with (c := EnsureBase _), He|].
      eapply evolves_trans; [eapply for_items_evolves, Hs|].
      eapply for_items_evolves, Hr.
    + eapply materialized_evolves; [eapply for_items_evolves, Hr|]. eauto.
Qed.

Lemma materialized_paths d : forall base_path s,
  materialized base_path d s ->
  (forall p, p ∈ file_paths base_path d -> s !! p = Some (RegularFile true [])) /\
  (forall p, p ∈ subdir_paths base_path d -> is_dir s p).
Proof.
  induction d as [|name rest IH|name sub rest IHsub IH] using dict_walk_ind;
    intros base_path s; cbn [materialized file_paths subdir_paths].
  - intros _. split; intros p H; inversion H.
  - intros [Hf Hr]. destruct (IH _ _ Hr) as [IHf IHd]. split; [|exact IHd].
    intros p [->|Hin]%elem_of_cons; auto.
  - intros [[Hd Hs] Hr].
    destruct (IH _ _ Hr) as [IHf IHd]. destruct (IHsub _ _ Hs) as [Isf Isd].
    split.
    + intros p [Hin|Hin]%elem_of_app; auto.
    + intros p. rewrite elem_of_app, elem_of_cons.
      intros [[->|Hin]|Hin]; auto.
Qed.


(** ** Entries the walk does not name *)

Lemma run_frame l : forall s r s' p x,
  run l s = (r, s') -> s !! p = Some x -> CreateFile p ∉ l -> s' !! p = Some x.
Proof.
  induction l as [|c l IH]; intros s r s' p x; cbn [run].
  - intros [= _ <-] H _. exact H.
  - unfold bind. intros H Hp Hnot.
    apply not_elem_of_cons in Hnot as [Hc Hl].
    destruct (exec c s) as [[e|u] s1] eqn:E.
    + injection H as _ <-. eapply exec_frame; eauto.
    + eapply IH; [exact H| |exact Hl]. eapply exec_frame; eauto.
Qed.

Lemma plan_items_files d : forall base_path p,
  CreateFile p ∈ plan_items base_path d -> p ∈ file_paths base_path d.
Proof.
  induction d as [|name rest IH|name sub rest IHsub IH] using dict_walk_ind;
    intros base_path p; cbn [plan_items file_paths app].
  - intros H. inversion H.
  - intros [[= ->]|Hin]%elem_of_cons; [left|right; auto].
  - rewrite !elem_of_cons, !elem_of_app.
    intros [[=]|[[=]|[Hin|Hin]]]; auto.
Qed.

Lemma ensure_base_inr_present base_path s u s1 :
  ensure_base base_path s = (inr u, s1) -> is_Some (s1 !! base_path).
Proof.
  intros [[Hx ->]|[_ Hd]]%ensure_base_inr; [exact Hx|]. rewrite Hd. eauto.
Qed.


Lemma is_dir_is_Some (s : fs) p : is_dir s p -> is_Some (s !! p).
Proof. intros [w H]. rewrite H. eauto. Qed.

(** ** Path strings and component lists *)

Lemma segments_no_sep b : has_sep b = false -> segments b = [b].
Proof.
  induction b as [|c b IH]; [reflexivity|].
  cbn [has_sep segments]. intros [Hc Hb]%orb_false_elim.
  rewrite Hc, (IH Hb). reflexivity.
Qed.

Lemma segments_nonempty a : segments a <> [].
Proof.
  destruct a as [|c a]; cbn [segments]; [discriminate|].
  destruct (bool_decide (c = "/"%char)); [discriminate|].
  destruct (segments a); discriminate.
Qed.

Lemma segments_app_sep a b :
  has_sep b = false -> segments (a +:+ "/" +:+ b) = (segments a ++ [b])%list.
Proof.
  intros Hb. induction a as [|c a IH].
  - change ("" +:+ "/" +:+ b) with (String "/" b). cbn [segments].
    rewrite bool_decide_eq_true_2 by reflexivity.
    rewrite (segments_no_sep _ Hb). reflexivity.
  - change (String c a +:+ "/" +:+ b) with (String c (a +:+ "/" +:+ b)).
    cbn [segments]. rewrite IH.
    destruct (bool_decide (c = "/"%char)); [reflexivity|].
    pose proof (segments_nonempty a).
    destruct (segments a) as [|h t]; [congruence|reflexivity].
Qed.

Lemma append_assoc_sep a b : (a +:+ "/") +:+ b = a +:+ "/" +:+ b.
Proof.
  induction a as [|c a IH]; [reflexivity|].
  change ((String c a +:+ "/") +:+ b) with (String c ((a +:+ "/") +:+ b)).
  rewrite IH. reflexivity.
Qed.

Lemma ends_with_sep_split a :
  ends_with_sep a = true -> exists a', a = a' +:+ "/".
Proof.
  induction a as [|c a IH]; [discriminate|].
  cbn [ends_with_sep]. destruct a as [|c' a].
  - intros ->%bool_decide_eq_true. exists "". reflexivity.
  - intros H. destruct (IH H) as [a' ->]. exists (String c a'). reflexivity.
Qed.

Lemma components_app_sep a b :
  has_sep b = false ->
  components (a +:+ "/" +:+ b) =
  ((if names_entry b then [b] else []) ++ components a)%list.
Proof.
  intros Hb. unfold components. rewrite segments_app_sep by exact Hb.
  rewrite filter_app, rev_app_distr. f_equal.
  cbn [filter list_filter]. destruct (decide (names_entry b = true)) as [->|Hn].
  - reflexivity.
  - rewrite (not_true_is_false _ Hn). reflexivity.
Qed.

(** On a plain name [os.path.join] steps into the entry of that name. *)
Lemma posixpath_join_components a b :
  plain_name b = true ->
  components (posixpath_join a b) = join (components a) b.
Proof.
  unfold plain_name. intros [[Hn _]%andb_prop Hs%negb_true_iff]%andb_prop.
  assert (Hstart : starts_with_sep b = false).
  { destruct b as [|c b]; [reflexivity|]. cbn in *.
    apply orb_false_elim in Hs as [Hc _]. exact Hc. }
  unfold posixpath_join, join. rewrite Hstart. cbn [orb].
  destruct (bool_decide (a = "")) eqn:Ea.
  - apply bool_decide_eq_true in Ea as ->.
    unfold components. rewrite (segments_no_sep _ Hs).
    cbn. rewrite Hn. reflexivity.
  - destruct (ends_with_sep a) eqn:Ee.
    + destruct (ends_with_sep_split _ Ee) as [a' ->].
      rewrite append_assoc_sep.
      rewrite components_app_sep by exact Hs. rewrite Hn.
      change (a' +:+ "/") with (a' +:+ "/" +:+ "").
      rewrite components_app_sep by reflexivity. reflexivity.
    + rewrite components_app_sep by exact Hs. rewrite Hn. reflexivity.
Qed.

(** The names of the program's tree are plain, and so is its base
    directory. *)
Lemma structure_names_plain :
  forallb plain_name (base_dir :: names structure) = true.
Proof. vm_compute. reflexivity. Qed.


Example posixpath_join_lib :
  posixpath_join (posixpath_join "lib" "core") "utils" = "lib/core/utils" /\
  components "lib/core/utils" = ["utils"; "core"; "lib"].
Proof. split; reflexivity. Qed.

(** * The claims *)

(** ** C1: what a successful run leaves on disk *)





(** ** C2: the first statement of the routine *)



(** ** C3: running twice *)



(** ** C4: the parent exists before its children are made *)

(** During the walk every child step finds its parent entry. *)
Lemma plan_parents_present base_path d s ev :
  ev ∈ trace (plan base_path d) s ->
  parent_ok (fun s p => is_Some (s !! p)) ev.
Proof.
  revert ev. apply Forall_forall. apply plan_parents.
  - intros s0 p. apply is_dir_is_Some.
  - intros s0 s1 p. apply evolves_is_Some.
  - intros s1. apply ensure_base_inr_present.
Qed.




(** ** C5: a failure ends the walk *)

(** C5: when the run raises [e], the steps it took are a beginning of the
    plan: the ones before the last succeeded, the last one raised [e] and
    changed nothing, the steps after it were not taken, and the final state
    is the state the failing step found.  Every entry made by an earlier step
    is in that final state exactly as it was made. *)
Theorem C5_failure_aborts_walk base_path d s e s' :
  create_structure base_path d s = (inl e, s') ->
  exists finished failing skipped,
    trace (plan base_path d) s = (finished ++ [failing])%list /\
    plan base_path d = (map ev_call finished ++ ev_call failing :: skipped)%list /\
    Forall (fun ev => ev_result ev = inr tt) finished /\
    ev_result failing = inl e /\
    ev_before failing = s' /\
    ev_after failing = s' /\
    Forall (fun ev => forall p x,
              ev_before ev !! p = None -> ev_after ev !! p = Some x ->
              s' !! p = Some x) finished.
Proof.
  rewrite create_structure_run. intros H.
  destruct (run_inl_trace _ _ _ _ H)
    as (finished & failing & skipped & Ht & Hl & Hf & He & Ha).
  exists finished, failing, skipped.
  assert (Hlast : failing ∈ trace (plan base_path d) s).
  { rewrite Ht. apply elem_of_app. right. left. }
  repeat (split; [assumption|]). split; [|split; [exact Ha|]].
  - destruct (trace_events _ _ _ Hlast) as (Hx & _ & _).
    rewrite He, Ha in Hx. symmetry.
    eapply exec_inl_unchanged; [exact Hx|].
    apply (plan_parents_present _ _ _ _ Hlast).
  - apply Forall_forall. intros ev Hin p x Hb Hafter.
    assert (Hev : ev ∈ trace (plan base_path d) s).
    { rewrite Ht. apply elem_of_app. left. exact Hin. }
    destruct (trace_events _ _ _ Hev) as (Hx & _ & Hfin).
    rewrite H in Hfin. cbn [snd] in Hfin.
    destruct (exec_created _ _ _ _ _ _ Hx Hb Hafter) as [-> | ->].
    + eapply evolves_dir; eassumption.
    + eapply evolves_settled; eassumption.
Qed.

Lemma C5_failure_aborts_walk_witness :
  create_structure ["lib"] core_then_main lib_read_only =
    (inl PermissionError, core_file_made) /\
  exists finished failing skipped,
    trace (plan ["lib"] core_then_main) lib_read_only = (finished ++ [failing])%list /\
    plan ["lib"] core_then_main =
      (map ev_call finished ++ ev_call failing :: skipped)%list /\
    Forall (fun ev => ev_result ev = inr tt) finished /\
    ev_result failing = inl PermissionError /\
    ev_before failing = core_file_made /\
    ev_after failing = core_file_made /\
    Forall (fun ev => forall p x,
              ev_before ev !! p = None -> ev_after ev !! p = Some x ->
              core_file_made !! p = Some x) finished.
Proof.
  assert (H : create_structure ["lib"] core_then_main lib_read_only =
              (inl PermissionError, core_file_made)) by (vm_compute; reflexivity).
  split; [exact H|].
  exact (C5_failure_aborts_walk _ _ _ _ _ H).
Defined.

(** ** C6: entries the tree does not name *)



(** ** C7: a file that is already there *)



(** ** C8: a base path that may not be written *)




(** ** C9: the walk terminates *)

Lemma create_structure_in_unfold frames base_path d s :
  create_structure_in (S frames) base_path d s =
  match ensure_base base_path s with
  | (inl e, s1) => Some (inl e, s1)
  | (inr _, s1) => for_items_in frames base_path d s1
  end.
Proof.
  cbn [create_structure_in].
  destruct (ensure_base base_path s) as [[e|u] s1]; [reflexivity|].
  revert s1. induction d as [|n0 c0 rest0 IH]; intros s1; [reflexivity|].
  cbn [for_items_in].
  destruct c0 as [|sub].
  - destruct (open_w _ s1) as [[e|u1] s2]; [reflexivity|apply IH].
  - destruct (os_makedirs _ true s1) as [[e|u1] s2]; [reflexivity|].
    destruct (create_structure_in frames _ sub s2) as [[[e|u2] s3]|];
      [reflexivity|apply IH|reflexivity].
Qed.

Lemma depth_pos d : 1 <= depth d.
Proof. destruct d as [|n [|sub] rest]; cbn [depth]; lia. Qed.

Lemma for_items_in_enough d : forall frames base_path s,
  depth d <= S frames ->
  for_items_in frames base_path d s = Some (for_items base_path d s).
Proof.
  induction d as [|name rest IH|name sub rest IHsub IH] using dict_walk_ind;
    intros frames base_path s Hd; cbn [depth] in Hd.
  - reflexivity.
  - cbn [for_items_in]. rewrite for_items_file. unfold bind.
    destruct (open_w _ s) as [[e|u1] s1]; [reflexivity|].
    apply IH. lia.
  - cbn [for_items_in]. rewrite for_items_dir, bind_assoc. unfold bind at 1.
    destruct (os_makedirs _ true s) as [[e|u1] s1]; [reflexivity|].
    pose proof (depth_pos sub).
    destruct frames as [|frames]; [lia|].
    rewrite create_structure_in_unfold, create_structure_unfold.
    unfold bind at 1. unfold bind at 1.
    destruct (ensure_base _ s1) as [[e|u2] s2]; [reflexivity|].
    rewrite IHsub by lia.
    destruct (for_items _ sub s2) as [[e|u3] s3]; [reflexivity|].
    apply IH. lia.
Qed.

(** C9: the walk is a total function of the tree, defined by structural
    recursion on it, and the nesting of its calls is bounded by the depth of
    the tree: with at least [depth d] activations available, the routine
    that counts its pending calls returns, and returns the result of the
    walk. *)
Theorem C9_walk_terminates base_path d s frames :
  depth d <= frames ->
  exists r s',
    create_structure base_path d s = (r, s') /\
    create_structure_in frames base_path d s = Some (r, s').
Proof.
  intros Hd. destruct (create_structure base_path d s) as [r s'] eqn:E.
  exists r, s'. split; [reflexivity|].
  pose proof (depth_pos d). destruct frames as [|frames]; [lia|].
  rewrite create_structure_in_unfold.
  rewrite create_structure_unfold in E. unfold bind in E.
  destruct (ensure_base base_path s) as [[e|u] s1]; [congruence|].
  rewrite for_items_in_enough by lia. congruence.
Qed.

Lemma C9_walk_terminates_witness :
  depth structure <= 3 /\
  exists r s',
    create_structure [base_dir] structure fresh = (r, s') /\
    create_structure_in 3 [base_dir] structure fresh = Some (r, s').
Proof.
  assert (H : depth structure <= 3) by (vm_compute; lia).
  split; [exact H|].
  exact (C9_walk_terminates [base_dir] structure fresh 3 H).
Defined.

(** ** C10: determinism *)





(** The program, started in a fresh writable directory, makes its tree
    below [lib] and prints its line. *)
Example create_directory_structure_fresh :
  (create_directory_structure (World fresh [])).1 = inr tt /\
  stdout (create_directory_structure (World fresh [])).2 =
    ["Directory structure created successfully under 'lib'"] /\
  size (files (create_directory_structure (World fresh [])).2) = 249.
Proof. vm_compute. repeat split. Qed.

(** The scenario of the specification. *)
Example scenario_from_fresh :
  create_structure ["out"] scenario fresh = (inr tt, scenario_made).
Proof. vm_compute. reflexivity. Qed.

(** * Further properties of the walk *)

(** ** Where the nodes of a tree lie *)

Ltac split_elem :=
  repeat (rewrite elem_of_cons || rewrite elem_of_app).




(** ** What the walk adds *)

(** With its base path in place, the loop adds entries at the paths of its
    nodes only: an empty writable file for a file marker, a writable
    directory for a directory node. *)
Lemma for_items_adds_nodes d : forall base_path s r s' q x,
  is_Some (s !! base_path) ->
  for_items base_path d s = (r, s') ->
  s !! q = None -> s' !! q = Some x ->
  (x = RegularFile true [] /\ q ∈ file_paths base_path d) \/
  (x = Directory true /\ q ∈ subdir_paths base_path d).
Proof.
  induction d as [|name rest IH|name sub rest IHsub IH] using dict_walk_ind;
    intros base_path s r s' q x Hb; cbn [file_paths subdir_paths app].
  - intros [= _ <-] Hn Hx. congruence.
  - rewrite for_items_file. unfold bind.
    destruct (open_w (join base_path name) s) as [[e|u] s1] eqn:Eo.
    { intros [= _ <-]. apply open_w_inl in Eo as ->. congruence. }
    intros Hr Hn Hx.
    destruct (s1 !! q) as [y|] eqn:E1.
    + apply open_w_inr in Eo as [-> _].
      destruct (decide (join base_path name = q)) as [<-|Hne];
        [|rewrite lookup_insert_ne in E1 by exact Hne; congruence].
      rewrite lookup_insert_eq in E1. injection E1 as <-.
      left. split; [|left].
      pose proof (evolves_settled _ _ _ (for_items_evolves _ _ _ _ _ Hr)
                    (lookup_insert_eq _ _ _)) as Hs.
      congruence.
    + assert (Hb1 : is_Some (s1 !! base_path)).
      { eapply evolves_is_Some; [eapply (exec_evolves (CreateFile _)), Eo|exact Hb]. }
      destruct (IH _ _ _ _ _ _ Hb1 Hr E1 Hx) as [[-> H]|[-> H]]; [left|right];
        (split; [reflexivity|]); [right|]; exact H.
  - rewrite for_items_dir, bind_assoc. unfold bind at 1.
    rewrite os_makedirs_parent_present by (right; exact Hb).
    destruct (mkdir_leaf (join base_path name) true s) as [[e|u] s1] eqn:Em.
    { intros [= _ <-] Hn Hx.
      apply mkdir_leaf_cases in Em as [(? & _)|[(? & _)|(_ & ->)]]; congruence. }
    rewrite create_structure_unfold. unfold bind at 1.
    assert (Hd1 : is_dir s1 (join base_path name)).
    { apply mkdir_leaf_cases in Em
        as [(_ & _ & n & parent & _ & _ & ->)|[(_ & _ & Hd & ->)|([e ?] & _)]];
        [exists true; apply lookup_insert_eq|exact Hd|discriminate]. }
    rewrite bind_inr with (x := tt) (s1 := s1)
      by (apply ensure_base_present, is_dir_is_Some, Hd1).
    assert (Hev1 : evolves s s1).
    { eapply only_adds_dirs_evolves, mkdir_leaf_only_adds, Em. }
    destruct (for_items (join base_path name) sub s1) as [[e|u2] s2] eqn:Es.
    + intros [= _ <-] Hn Hx.
      destruct (s1 !! q) as [y|] eqn:E1.
      * right. split_elem.
        pose proof (mkdir_leaf_only_adds _ _ _ _ _ Em) as (_ & Hnew & _).
        apply mkdir_leaf_cases in Em
          as [(_ & _ & n & parent & Hp & _ & ->)|[(_ & _ & _ & ->)|(_ & ->)]];
          try congruence.
        destruct (decide (join base_path name = q)) as [<-|Hne];
          [|rewrite lookup_insert_ne in E1 by exact Hne; congruence].
        rewrite lookup_insert_eq in E1.
        pose proof (evolves_dir _ _ _ _ (for_items_evolves _ _ _ _ _ Es)
                      (lookup_insert_eq _ _ _)) as Hs.
        split; [congruence|auto].
      * destruct (IHsub _ _ _ _ _ _ (is_dir_is_Some _ _ Hd1) Es E1 Hx)
          as [[-> H]|[-> H]]; [left|right]; (split; [reflexivity|]);
          split_elem; auto.
    + intros Hr Hn Hx.
      destruct (s2 !! q) as [y|] eqn:E2.
      * assert (Hy : (y = RegularFile true [] /\
                      q ∈ file_paths (join base_path name) sub) \/
                     (y = Directory true /\
                      (q = join base_path name \/
                       q ∈ subdir_paths (join base_path name) sub))).
        { destruct (s1 !! q) as [z|] eqn:E1.
          - right.
            apply mkdir_leaf_cases in Em
              as [(_ & _ & n & parent & Hp & _ & ->)|[(_ & _ & _ & ->)|(_ & ->)]];
              try congruence.
            destruct (decide (join base_path name = q)) as [<-|Hne];
              [|rewrite lookup_insert_ne in E1 by exact Hne; congruence].
            pose proof (evolves_dir _ _ _ _ (for_items_evolves _ _ _ _ _ Es)
                          (lookup_insert_eq _ _ _)) as Hs.
            split; [congruence|auto].
          - destruct (IHsub _ _ _ _ _ _ (is_dir_is_Some _ _ Hd1) Es E1 E2)
              as [[-> H]|[-> H]]; auto. }
        assert (Hxy : x = y).
        { pose proof (for_items_evolves _ _ _ _ _ Hr) as Hev.
          destruct Hy as [[-> _]|[-> _]].
          - pose proof (evolves_settled _ _ _ Hev E2). congruence.
          - pose proof (evolves_dir _ _ _ _ Hev E2). congruence. }
        subst y. split_elem. tauto.
      * assert (Hb2 : is_Some (s2 !! base_path)).
        { eapply evolves_is_Some; [eapply for_items_evolves, Es|].
          eapply evolves_is_Some; [exact Hev1|exact Hb]. }
        destruct (IH _ _ _ _ _ _ Hb2 Hr E2 Hx) as [[-> H]|[-> H]]; [left|right];
          (split; [reflexivity|]); split_elem; auto.
Qed.

Lemma for_items_frame base_path d s r s' p x :
  for_items base_path d s = (r, s') ->
  s !! p = Some x -> p ∉ file_paths base_path d -> s' !! p = Some x.
Proof.
  rewrite for_items_run. intros H Hp Hnot.
  eapply run_frame; [exact H|exact Hp|].
  intros Hin. apply Hnot, plan_items_files, Hin.
Qed.







(** ** Entries that stand in the way *)

(** X4: the run cannot succeed over an entry of the wrong kind: if before
    the run the path of a File Marker holds a directory or a file that may
    not be written, or the path of a Directory Node below the root holds a
    regular file, the run raises. *)
Theorem X4_conflicting_entry_fails base_path d s r s' p :
  create_structure base_path d s = (r, s') ->
  (p ∈ file_paths base_path d /\
   (is_dir s p \/ exists data, s !! p = Some (RegularFile false data))) \/
  (p ∈ subdir_paths base_path d /\
   exists w data, s !! p = Some (RegularFile w data)) ->
  exists e, r = inl e.
Proof.
  intros H Hc. destruct r as [e|[]]; [eauto|]. exfalso.
  pose proof (create_structure_evolves _ _ _ _ _ H) as Hev.
  rewrite create_structure_unfold in H.
  apply bind_inv_inr in H as (u0 & s0 & _ & Hs).
  apply for_items_materialized, materialized_paths in Hs as [Hf Hd].
  destruct Hc as [[Hin [[w Hp]|[data Hp]]]|[Hin (w & data & Hp)]].
  - pose proof (evolves_dir _ _ _ _ Hev Hp). rewrite (Hf _ Hin) in *. discriminate.
  - destruct (evolves_file _ _ _ _ _ Hev Hp) as (data' & Hp' & _).
    rewrite (Hf _ Hin) in Hp'. discriminate.
  - destruct (evolves_file _ _ _ _ _ Hev Hp) as (data' & Hp' & _).
    destruct (Hd _ Hin) as [w' Hq]. congruence.
Qed.

Lemma X4_conflicting_entry_fails_witness :
  create_structure ["out"] scenario out_with_locked_file =
    (inl PermissionError, out_with_locked_file) /\
  ((["a.txt"; "out"] ∈ file_paths ["out"] scenario /\
    (is_dir out_with_locked_file ["a.txt"; "out"] \/
     exists data,
       out_with_locked_file !! ["a.txt"; "out"] = Some (RegularFile false data))) \/
   (["a.txt"; "out"] ∈ subdir_paths ["out"] scenario /\
    exists w data,
      out_with_locked_file !! ["a.txt"; "out"] = Some (RegularFile w data))) /\
  exists e, inl PermissionError = inl e :> OSError + unit.
Proof.
  assert (H : create_structure ["out"] scenario out_with_locked_file =
              (inl PermissionError, out_with_locked_file)) by (vm_compute; reflexivity).
  assert (Hc : (["a.txt"; "out"] ∈ file_paths ["out"] scenario /\
    (is_dir out_with_locked_file ["a.txt"; "out"] \/
     exists data,
       out_with_locked_file !! ["a.txt"; "out"] = Some (RegularFile false data))) \/
   (["a.txt"; "out"] ∈ subdir_paths ["out"] scenario /\
    exists w data,
      out_with_locked_file !! ["a.txt"; "out"] = Some (RegularFile w data))).
  { left. split; [left|]. right. eexists. vm_compute. reflexivity. }
  split; [exact H|]. split; [exact Hc|].
  exact (X4_conflicting_entry_fails _ _ _ _ _ _ H Hc).
Defined.


Lemma wf_fresh : wf fresh.
Proof.
  intros name parent e H. unfold fresh in H.
  rewrite lookup_singleton_ne in H by discriminate. discriminate.
Qed.


(** ** Well-formed states *)

(** X6: the run keeps the filesystem well-formed: if before the run every
    entry lies in a directory, so it does after the run, whether the run
    succeeds or raises; nothing is ever made inside a file or inside
    something that is not there. *)
Theorem X6_run_keeps_wf base_path d s r s' :
  create_structure base_path d s = (r, s') -> wf s -> wf s'.
Proof. rewrite create_structure_run. apply run_wf. Qed.

Lemma X6_run_keeps_wf_witness :
  create_structure ["out"] scenario fresh = (inr tt, scenario_made) /\
  wf fresh /\ wf scenario_made.
Proof.
  assert (H : create_structure ["out"] scenario fresh = (inr tt, scenario_made))
    by (vm_compute; reflexivity).
  split; [exact H|]. split; [exact wf_fresh|].
  exact (X6_run_keeps_wf _ _ _ _ _ H wf_fresh).
Defined.

(** ** Runs that change nothing *)


(** ** Runs on a clean base directory *)







(** ** The order of the items *)

(** X9: the order of the items does not matter to the outcome of a
    successful run: two trees with the same File Marker paths and the same
    Directory Node paths, both run with success from the same state against
    the same base path, leave the same filesystem. *)
Theorem X9_order_of_items_irrelevant base_path d1 d2 s s1 s2 :
  create_structure base_path d1 s = (inr tt, s1) ->
  create_structure base_path d2 s = (inr tt, s2) ->
  (forall q, q ∈ file_paths base_path d1 <-> q ∈ file_paths base_path d2) ->
  (forall q, q ∈ subdir_paths base_path d1 <-> q ∈ subdir_paths base_path d2) ->
  s1 = s2.
Proof.
  rewrite !create_structure_unfold. unfold bind.
  destruct (ensure_base base_path s) as [[e|u] s0] eqn:E0; [discriminate|].
  intros H1 H2 Hfiles Hdirs.
  pose proof (ensure_base_inr_present _ _ _ _ E0) as Hb.
  pose proof (for_items_materialized _ _ _ _ _ H1) as [Hf1 Hd1]%materialized_paths.
  pose proof (for_items_materialized _ _ _ _ _ H2) as [Hf2 Hd2]%materialized_paths.
  apply map_eq. intros q.
  destruct (decide (q ∈ file_paths base_path d1)) as [Hin|Hnot].
  { rewrite (Hf1 _ Hin), (Hf2 _ (proj1 (Hfiles q) Hin)). reflexivity. }
  assert (Hnot2 : q ∉ file_paths base_path d2) by (rewrite <- Hfiles; exact Hnot).
  destruct (s0 !! q) as [e|] eqn:E.
  { rewrite (for_items_frame _ _ _ _ _ _ _ H1 E Hnot).
    rewrite (for_items_frame _ _ _ _ _ _ _ H2 E Hnot2). reflexivity. }
  assert (Hnew : forall d s' x,
            for_items base_path d s0 = (inr tt, s') ->
            q ∉ file_paths base_path d -> s' !! q = Some x ->
            x = Directory true /\ q ∈ subdir_paths base_path d).
  { intros d s' x H Hn Hx.
    destruct (for_items_adds_nodes _ _ _ _ _ _ _ Hb H E Hx) as [[_ ?]|?]; tauto. }
  destruct (s1 !! q) as [x|] eqn:E1, (s2 !! q) as [y|] eqn:E2; try reflexivity.
  - destruct (Hnew _ _ _ H1 Hnot E1) as [-> _].
    destruct (Hnew _ _ _ H2 Hnot2 E2) as [-> _]. reflexivity.
  - destruct (Hnew _ _ _ H1 Hnot E1) as [_ Hin].
    destruct (Hd2 q (proj1 (Hdirs q) Hin)) as [w Hw]. congruence.
  - destruct (Hnew _ _ _ H2 Hnot2 E2) as [_ Hin].
    destruct (Hd1 q (proj2 (Hdirs q) Hin)) as [w Hw]. congruence.
Qed.

Lemma X9_order_of_items_irrelevant_witness :
  create_structure ["out"] scenario out_with_file = (inr tt, scenario_made) /\
  create_structure ["out"] scenario_swapped out_with_file = (inr tt, scenario_made) /\
  (forall q, q ∈ file_paths ["out"] scenario <->
             q ∈ file_paths ["out"] scenario_swapped) /\
  (forall q, q ∈ subdir_paths ["out"] scenario <->
             q ∈ subdir_paths ["out"] scenario_swapped) /\
  scenario_made = scenario_made.
Proof.
  assert (H1 : create_structure ["out"] scenario out_with_file = (inr tt, scenario_made))
    by (vm_compute; reflexivity).
  assert (H2 : create_structure ["out"] scenario_swapped out_with_file =
               (inr tt, scenario_made)) by (vm_compute; reflexivity).
  assert (Hf : forall q, q ∈ file_paths ["out"] scenario <->
                         q ∈ file_paths ["out"] scenario_swapped).
  { intros q. cbn. split_elem. tauto. }
  assert (Hd : forall q, q ∈ subdir_paths ["out"] scenario <->
                         q ∈ subdir_paths ["out"] scenario_swapped).
  { intros q. cbn. split_elem. tauto. }
  split; [exact H1|]. split; [exact H2|]. split; [exact Hf|]. split; [exact Hd|].
  exact (X9_order_of_items_irrelevant _ _ _ _ _ _ H1 H2 Hf Hd).
Defined.

(** ** The program *)




(** ** The path strings of the walk *)

Lemma walk_paths_nodes d : forall base_path q,
  q ∈ walk_paths base_path d <->
  q ∈ file_paths base_path d \/ q ∈ subdir_paths base_path d.
Proof.
  induction d as [|name rest IH|name sub rest IHsub IH] using dict_walk_ind;
    intros base_path q; cbn [walk_paths file_paths subdir_paths app].
  - split; [intros H; inversion H|intros [H|H]; inversion H].
  - split_elem. rewrite IH. tauto.
  - split_elem. rewrite IH, IHsub. tauto.
Qed.

(** X11: for a tree whose names are all plain path components, the path
    strings the walk builds with [os.path.join], item by item and call by
    call, read as component paths are the paths obtained by stepping from
    the base path into the entry of each name; these are exactly the paths
    of the tree's File Markers and Directory Nodes. *)
Theorem X11_joined_strings_are_node_paths d : forall base_path,
  forallb plain_name (names d) = true ->
  map components (node_strings base_path d) = walk_paths (components base_path) d /\
  forall q, q ∈ map components (node_strings base_path d) <->
            q ∈ file_paths (components base_path) d \/
            q ∈ subdir_paths (components base_path) d.
Proof.
  assert (Hmap : forall base_path,
            forallb plain_name (names d) = true ->
            map components (node_strings base_path d) =
            walk_paths (components base_path) d).
  { induction d as [|name rest IH|name sub rest IHsub IH] using dict_walk_ind;
      intros base_path; cbn [names node_strings walk_paths forallb app map].
    - reflexivity.
    - intros [Hn Hr]%andb_prop.
      rewrite posixpath_join_components by exact Hn. f_equal. apply IH, Hr.
    - rewrite forallb_app. intros [Hn [Hs Hr]%andb_prop]%andb_prop.
      rewrite map_app, posixpath_join_components by exact Hn. f_equal.
      rewrite IHsub by exact Hs. rewrite posixpath_join_components by exact Hn.
      f_equal. apply IH, Hr. }
  intros base_path Hp. split; [apply Hmap, Hp|].
  intros q. rewrite Hmap by exact Hp. apply walk_paths_nodes.
Qed.

Lemma X11_joined_strings_are_node_paths_witness :
  forallb plain_name (names structure) = true /\
  map components (node_strings base_dir structure) =
    walk_paths (components base_dir) structure /\
  forall q, q ∈ map components (node_strings base_dir structure) <->
            q ∈ file_paths (components base_dir) structure \/
            q ∈ subdir_paths (components base_dir) structure.
Proof.
  assert (H : forallb plain_name (names structure) = true)
    by (vm_compute; reflexivity).
  split; [exact H|].
  exact (X11_joined_strings_are_node_paths structure base_dir H).
Defined.

(** ** Running again *)





(** ** How little the directory-making calls do *)


